(** * valhalla, [src/geo/tiles.cc]: a uniform grid of square tiles

    Shallow embedding of class [Tiles] and proofs about its coordinate to
    index maps, its neighbour functions and the bounded flood fill
    [TileList].

    Numeric model.
    - C++ [float] coordinates are read as exact rationals ([Q]); rounding,
      infinities and NaN of binary32 are outside this reading.  [==] and
      [<] on floats are [Qeq_bool] and [Qlt_bool].  Module [Binary32]
      reads the coordinate to index maps a second time, in IEEE-754
      binary32, to evaluate them at an input where rounding decides.
    - C++ [int] values are read in [Z].  Signed overflow is undefined
      behaviour in C++, so signed arithmetic is not wrapped; theorems that
      need it carry the hypothesis that the tile count fits an [int].
      Integer division [a / b] truncates toward zero ([Z.quot]).
    - [unsigned int] arithmetic wraps modulo [2^32] and is written out
      ([to_unsigned]); the cast back to [int] is [to_int]. *)

From Stdlib Require Import ZArith QArith Qround Lia Lqa SpecFloat.
From stdpp Require Import base option list gmap.

Local Open Scope Z_scope.

(** ** Scalars and casts *)

Definition Qlt_bool (a b : Q) : bool := negb (Qle_bool b a).

(** [(int) f] on a float: truncation toward zero. *)
Definition float_to_int (f : Q) : Z := Z.quot (Qnum f) (Z.pos (Qden f)).

(** [ceil(f)]: the least integer not below [f], still a float. *)
Definition ceil (f : Q) : Q := inject_Z (Qceiling f).

(** [(float) i] on an int. *)
Definition int_to_float (i : Z) : Q := inject_Z i.

Definition INT_MAX : Z := 2 ^ 31 - 1.

(** Conversion of a value to [unsigned int]. *)
Definition to_unsigned (z : Z) : Z := z mod 2 ^ 32.

(** Conversion of an [unsigned int] to [int]. *)
Definition to_int (z : Z) : Z := (z + 2 ^ 31) mod 2 ^ 32 - 2 ^ 31.

(** ** The geometric collaborators

    [Point2] and [AABB2] are declared in headers that are not part of
    [src/]; [tiles.cc] builds them with the arguments in the order (y, x)
    and (miny, minx, maxy, maxx), as [Tiles::TileBounds(col, row)] names
    them. *)

Module Point2.
Record t : Type := mk { x : Q; y : Q }.
Definition make (y0 x0 : Q) : t := {| x := x0; y := y0 |}.
End Point2.

Module AABB2.
Record t : Type := mk { minx : Q; miny : Q; maxx : Q; maxy : Q }.
Definition make (miny0 minx0 maxy0 maxx0 : Q) : t :=
  {| minx := minx0; miny := miny0; maxx := maxx0; maxy := maxy0 |}.

(** The closed rectangle contains the point. *)
Definition Contains (r : t) (p : Point2.t) : Prop :=
  (minx r <= Point2.x p /\ Point2.x p <= maxx r /\
   miny r <= Point2.y p /\ Point2.y p <= maxy r)%Q.

(** A rectangle proper: its minimum corner is not beyond its maximum. *)
Definition WellFormed (r : t) : Prop :=
  (minx r <= maxx r /\ miny r <= maxy r)%Q.
End AABB2.

(** The two methods of [AABB2] that [Tiles::TileList] calls.  Their code is
    not in [src/], so [TileList] is embedded over any implementation. *)
Class AABB2_methods : Type := {
  Center : AABB2.t -> Point2.t;
  Intersects : AABB2.t -> AABB2.t -> bool
}.

(** What the spec (section 6) assumes of them: the center of a rectangle
    lies in it, and two rectangles that share a point intersect. *)
Class AABB2_contract (M : AABB2_methods) : Prop := {
  Center_Contains : forall r, AABB2.WellFormed r -> AABB2.Contains r (Center r);
  Intersects_shared : forall r1 r2 p,
    AABB2.Contains r1 p -> AABB2.Contains r2 p -> Intersects r1 r2 = true
}.

(** Modelled from the spec: [AABB2::Center] and [AABB2::Intersects] (file
    geo/aabb2 is missing from src/).  Section 6: [center() -> Point], and
    [intersects(other)] is true iff the two rectangles share any area or
    boundary (closed-interval intersection). *)
Definition spec_Center (r : AABB2.t) : Point2.t :=
  Point2.make ((AABB2.miny r + AABB2.maxy r) / 2)%Q
              ((AABB2.minx r + AABB2.maxx r) / 2)%Q.

(** Modelled from the spec: closed-interval intersection (section 6), for
    the missing [AABB2::Intersects]. *)
Definition spec_Intersects (r1 r2 : AABB2.t) : bool :=
  Qle_bool (AABB2.minx r1) (AABB2.maxx r2) &&
  Qle_bool (AABB2.minx r2) (AABB2.maxx r1) &&
  Qle_bool (AABB2.miny r1) (AABB2.maxy r2) &&
  Qle_bool (AABB2.miny r2) (AABB2.maxy r1).

#[export] Instance spec_methods : AABB2_methods :=
  {| Center := spec_Center; Intersects := spec_Intersects |}.

(** ** Class [Tiles] *)

Record Tiles : Type := mkTiles {
  tilebounds_ : AABB2.t;
  tilesize_ : Q;
  nrows_ : Z;
  ncolumns_ : Z;
  checklist_ : list Z;         (* FIFO: push_back, front, pop_front *)
  tilelist_ : list Z;          (* the vector TileList returns *)
  visitedtiles_ : gmap Z Z     (* std::map<int,int> *)
}.

(** [Tiles::Tiles(bounds, tilesize)] *)
Definition Tiles_new (bounds : AABB2.t) (tilesize : Q) : Tiles :=
  {| tilebounds_ := bounds;
     tilesize_ := tilesize;
     ncolumns_ :=
       float_to_int (ceil ((AABB2.maxx bounds - AABB2.minx bounds) / tilesize));
     nrows_ :=
       float_to_int (ceil ((AABB2.maxy bounds - AABB2.miny bounds) / tilesize));
     checklist_ := [];
     tilelist_ := [];
     visitedtiles_ := ∅ |}.

Definition TileSize (t : Tiles) : Q := tilesize_ t.

Definition TileBounds (t : Tiles) : AABB2.t := tilebounds_ t.

(** [Tiles::Row] *)
Definition Row (t : Tiles) (y : Q) : Z :=
  if Qlt_bool y (AABB2.miny (tilebounds_ t)) ||
     Qlt_bool (AABB2.maxy (tilebounds_ t)) y
  then -1
  else if Qeq_bool y (AABB2.maxy (tilebounds_ t))
  then nrows_ t - 1
  else float_to_int ((y - AABB2.miny (tilebounds_ t)) / tilesize_ t).

(** [Tiles::Col] *)
Definition Col (t : Tiles) (x : Q) : Z :=
  if Qlt_bool x (AABB2.minx (tilebounds_ t)) ||
     Qlt_bool (AABB2.maxx (tilebounds_ t)) x
  then -1
  else if Qeq_bool x (AABB2.maxx (tilebounds_ t))
  then ncolumns_ t - 1
  else
    let col := ((x - AABB2.minx (tilebounds_ t)) / tilesize_ t)%Q in
    if Qle_bool 0 col then float_to_int col else float_to_int col - 1.

(** [Tiles::TileId(const float y, const float x)] *)
Definition TileId_yx (t : Tiles) (y x : Q) : Z :=
  if Qlt_bool y (AABB2.miny (tilebounds_ t)) ||
     Qlt_bool x (AABB2.minx (tilebounds_ t)) ||
     Qlt_bool (AABB2.maxy (tilebounds_ t)) y ||
     Qlt_bool (AABB2.maxx (tilebounds_ t)) x
  then -1
  else Row t y * ncolumns_ t + Col t x.

(** [Tiles::TileId(const Point2& c)] *)
Definition TileId (t : Tiles) (c : Point2.t) : Z :=
  TileId_yx t (Point2.y c) (Point2.x c).

(** [Tiles::TileId(const int col, const int row)] *)
Definition TileId_colrow (t : Tiles) (col row : Z) : Z :=
  row * ncolumns_ t + col.

(** [Tiles::Base] *)
Definition Base (t : Tiles) (tileid : Z) : Point2.t :=
  let row := Z.quot tileid (ncolumns_ t) in
  let col := tileid - row * ncolumns_ t in
  Point2.make (AABB2.miny (tilebounds_ t) + int_to_float row * tilesize_ t)%Q
              (AABB2.minx (tilebounds_ t) + int_to_float col * tilesize_ t)%Q.

(** [Tiles::TileBounds(const int tileid)] *)
Definition TileBounds_id (t : Tiles) (tileid : Z) : AABB2.t :=
  let base := Base t tileid in
  AABB2.make (Point2.y base) (Point2.x base)
             (Point2.y base + tilesize_ t)%Q (Point2.x base + tilesize_ t)%Q.

(** [Tiles::TileBounds(const int col, const int row)] *)
Definition TileBounds_colrow (t : Tiles) (col row : Z) : AABB2.t :=
  let basey := (int_to_float row * tilesize_ t + AABB2.miny (tilebounds_ t))%Q in
  let basex := (int_to_float col * tilesize_ t + AABB2.minx (tilebounds_ t))%Q in
  AABB2.make basey basex (basey + tilesize_ t)%Q (basex + tilesize_ t)%Q.


(** [Tiles::GetRelativeTileId] *)
Definition GetRelativeTileId (t : Tiles) (initial_tile delta_rows delta_cols : Z) : Z :=
  initial_tile + delta_rows * ncolumns_ t + delta_cols.

(** [Tiles::TileOffsets]; the two reference parameters are returned as
    the pair (delta_rows, delta_cols). *)
Definition TileOffsets (t : Tiles) (initial_tileid newtileid : Z) : Z * Z :=
  let deltaTile := newtileid - initial_tileid in
  let delta_rows :=
    Z.quot newtileid (ncolumns_ t) - Z.quot initial_tileid (ncolumns_ t) in
  (delta_rows, deltaTile - delta_rows * ncolumns_ t).

(** [Tiles::TileCount]; the [int] product is converted to the
    [unsigned int] the method returns. *)
Definition TileCount (t : Tiles) : Z :=
  let nrows :=
    ((AABB2.maxy (tilebounds_ t) - AABB2.miny (tilebounds_ t)) / tilesize_ t)%Q in
  to_unsigned (ncolumns_ t * float_to_int (ceil nrows)).

(** [Tiles::RightNeighbor] *)
Definition RightNeighbor (t : Tiles) (tileid : Z) : Z :=
  let row := Z.quot tileid (ncolumns_ t) in
  let col := tileid - row * ncolumns_ t in
  if col <? ncolumns_ t - 1 then tileid + 1 else tileid - ncolumns_ t + 1.

(** [Tiles::LeftNeighbor] *)
Definition LeftNeighbor (t : Tiles) (tileid : Z) : Z :=
  let row := Z.quot tileid (ncolumns_ t) in
  let col := tileid - row * ncolumns_ t in
  if 0 <? col then tileid - 1 else tileid + ncolumns_ t - 1.

(** [Tiles::TopNeighbor]; [TileCount() - ncolumns_] is computed in
    [unsigned int] and cast to [int]. *)
Definition TopNeighbor (t : Tiles) (tileid : Z) : Z :=
  if tileid <? to_int (to_unsigned (TileCount t - ncolumns_ t))
  then tileid + ncolumns_ t else tileid.

(** [Tiles::BottomNeighbor] *)
Definition BottomNeighbor (t : Tiles) (tileid : Z) : Z :=
  if tileid <? ncolumns_ t then tileid else tileid - ncolumns_ t.

(** [Tiles::InList] *)
Definition InList (t : Tiles) (id : Z) : bool :=
  match visitedtiles_ t !! id with
  | Some _ => true
  | None => false
  end.

(** [checklist_.push_back(neighbor); visitedtiles_[neighbor] = 1;] *)
Definition enqueue (neighbor : Z) (t : Tiles) : Tiles :=
  {| tilebounds_ := tilebounds_ t; tilesize_ := tilesize_ t;
     nrows_ := nrows_ t; ncolumns_ := ncolumns_ t;
     checklist_ := checklist_ t ++ [neighbor];
     tilelist_ := tilelist_ t;
     visitedtiles_ := <[neighbor := 1]> (visitedtiles_ t) |}.

(** One of the four blocks of [addNeighbors]:
    [if (neighbor != tileid && !InList(neighbor)) { ... }] *)
Definition checkNeighbor (tileid neighbor : Z) (t : Tiles) : Tiles :=
  if negb (neighbor =? tileid) && negb (InList t neighbor)
  then enqueue neighbor t else t.

(** [Tiles::addNeighbors]: left, right, top, bottom, in this order. *)
Definition addNeighbors (tileid : Z) (t : Tiles) : Tiles :=
  let t := checkNeighbor tileid (LeftNeighbor t tileid) t in
  let t := checkNeighbor tileid (RightNeighbor t tileid) t in
  let t := checkNeighbor tileid (TopNeighbor t tileid) t in
  checkNeighbor tileid (BottomNeighbor t tileid) t.

Definition set_checklist (l : list Z) (t : Tiles) : Tiles :=
  {| tilebounds_ := tilebounds_ t; tilesize_ := tilesize_ t;
     nrows_ := nrows_ t; ncolumns_ := ncolumns_ t;
     checklist_ := l;
     tilelist_ := tilelist_ t;
     visitedtiles_ := visitedtiles_ t |}.

(** [tilelist_.push_back(tileid)] *)
Definition push_tile (tileid : Z) (t : Tiles) : Tiles :=
  {| tilebounds_ := tilebounds_ t; tilesize_ := tilesize_ t;
     nrows_ := nrows_ t; ncolumns_ := ncolumns_ t;
     checklist_ := checklist_ t;
     tilelist_ := tilelist_ t ++ [tileid];
     visitedtiles_ := visitedtiles_ t |}.

(** [visitedtiles_[tileid] = 1] *)
Definition mark_visited (tileid : Z) (t : Tiles) : Tiles :=
  {| tilebounds_ := tilebounds_ t; tilesize_ := tilesize_ t;
     nrows_ := nrows_ t; ncolumns_ := ncolumns_ t;
     checklist_ := checklist_ t;
     tilelist_ := tilelist_ t;
     visitedtiles_ := <[tileid := 1]> (visitedtiles_ t) |}.

(** [checklist_.clear(); tilelist_.clear(); visitedtiles_.clear();] *)
Definition clear_lists (t : Tiles) : Tiles :=
  {| tilebounds_ := tilebounds_ t; tilesize_ := tilesize_ t;
     nrows_ := nrows_ t; ncolumns_ := ncolumns_ t;
     checklist_ := [];
     tilelist_ := [];
     visitedtiles_ := ∅ |}.

(** The loop of [Tiles::NextTile], by recursion on the check list [cl]
    still to examine: every iteration pops its front. *)
Fixpoint NextTile_loop `{AABB2_methods} (boundingbox : AABB2.t)
    (cl : list Z) (t : Tiles) : Z * Tiles :=
  match cl with
  | [] => (-1, set_checklist [] t)
  | tileid :: rest =>
      if Intersects boundingbox (TileBounds_id t tileid)
      then (tileid, addNeighbors tileid (set_checklist rest t))
      else NextTile_loop boundingbox rest t
  end.

(** [Tiles::NextTile] *)
Definition NextTile `{AABB2_methods} (boundingbox : AABB2.t) (t : Tiles) : Z * Tiles :=
  NextTile_loop boundingbox (checklist_ t) t.

(** The [while] loop of [Tiles::TileList].  [fuel] bounds the number of
    iterations; [None] means the bound was reached before the loop ended. *)
Fixpoint TileList_loop `{AABB2_methods} (fuel : nat) (boundingbox : AABB2.t)
    (maxtiles : Z) (t : Tiles) : option Tiles :=
  match fuel with
  | O => None
  | S fuel' =>
      let '(tileid, t1) := NextTile boundingbox t in
      if 0 <=? tileid then
        let t2 := push_tile tileid t1 in
        if Z.of_nat (length (tilelist_ t2)) =? maxtiles
        then Some t2
        else TileList_loop fuel' boundingbox maxtiles t2
      else Some t1
  end.

(** [Tiles::TileList], returning the object after the call; the vector the
    method returns is its [tilelist_]. *)
Definition TileList_run `{AABB2_methods} (fuel : nat) (t : Tiles)
    (boundingbox : AABB2.t) (maxtiles : Z) : option Tiles :=
  let t := clear_lists t in
  let tileid := TileId t (Center boundingbox) in
  if tileid =? -1 then Some t
  else
    let t := push_tile tileid t in
    let t := mark_visited tileid t in
    let t := addNeighbors tileid t in
    TileList_loop fuel boundingbox maxtiles t.

Definition TileList `{AABB2_methods} (fuel : nat) (t : Tiles)
    (boundingbox : AABB2.t) (maxtiles : Z) : option (list Z) :=
  tilelist_ <$> TileList_run fuel t boundingbox maxtiles.

(** ** The coordinate to index maps in IEEE-754 binary32

    On the usual targets (x86-64, AArch64) a C++ [float] is a binary32 and
    an expression over floats is evaluated in binary32, rounding to
    nearest, ties to even.  The Standard Library's [SpecFloat] computes
    that arithmetic.  The constructor, [Row], [Col], the point-based
    [TileId] and [TileCount] are read over it here, statement for
    statement as above; the three lists of the class play no part in
    them. *)

Module Binary32.

Definition float : Type := spec_float.
Definition prec : Z := 24.
Definition emax : Z := 128.

(** The float nearest to [m * 2^e]. *)
Definition make (m e : Z) : float := binary_normalize prec emax m e false.

Definition sub : float -> float -> float := SFsub prec emax.
Definition div : float -> float -> float := SFdiv prec emax.

(** The largest float below [f]. *)
Definition pred : float -> float := SFpred prec emax.

(** [(int) f]: truncation toward zero.  The cast of a NaN or an infinity
    is undefined in C++; it is 0 here. *)
Definition float_to_int (f : float) : Z :=
  match f with
  | S754_finite s m e =>
      let z := if 0 <=? e then Z.pos m * 2 ^ e else Z.quot (Z.pos m) (2 ^ (- e)) in
      if s then - z else z
  | _ => 0
  end.

(** [(int) ceil(f)] *)
Definition ceil_to_int (f : float) : Z :=
  match f with
  | S754_finite s m e =>
      if 0 <=? e then (if s then - (Z.pos m * 2 ^ e) else Z.pos m * 2 ^ e)
      else if s then - (Z.pos m / 2 ^ (- e))
      else - (- Z.pos m / 2 ^ (- e))
  | _ => 0
  end.

Record box : Type := mkbox { minx : float; miny : float; maxx : float; maxy : float }.

Record Tiles : Type := mkTiles {
  tilebounds_ : box;
  tilesize_ : float;
  nrows_ : Z;
  ncolumns_ : Z
}.

(** [Tiles::Tiles(bounds, tilesize)] *)
Definition Tiles_new (bounds : box) (tilesize : float) : Tiles :=
  {| tilebounds_ := bounds;
     tilesize_ := tilesize;
     ncolumns_ := ceil_to_int (div (sub (maxx bounds) (minx bounds)) tilesize);
     nrows_ := ceil_to_int (div (sub (maxy bounds) (miny bounds)) tilesize) |}.

(** [Tiles::Row] *)
Definition Row (t : Tiles) (y : float) : Z :=
  if SFltb y (miny (tilebounds_ t)) || SFltb (maxy (tilebounds_ t)) y
  then -1
  else if SFeqb y (maxy (tilebounds_ t))
  then nrows_ t - 1
  else float_to_int (div (sub y (miny (tilebounds_ t))) (tilesize_ t)).

(** [Tiles::Col] *)
Definition Col (t : Tiles) (x : float) : Z :=
  if SFltb x (minx (tilebounds_ t)) || SFltb (maxx (tilebounds_ t)) x
  then -1
  else if SFeqb x (maxx (tilebounds_ t))
  then ncolumns_ t - 1
  else
    let col := div (sub x (minx (tilebounds_ t))) (tilesize_ t) in
    if SFleb (make 0 0) col then float_to_int col else float_to_int col - 1.

(** [Tiles::TileId(const float y, const float x)] *)
Definition TileId_yx (t : Tiles) (y x : float) : Z :=
  if SFltb y (miny (tilebounds_ t)) || SFltb x (minx (tilebounds_ t)) ||
     SFltb (maxy (tilebounds_ t)) y || SFltb (maxx (tilebounds_ t)) x
  then -1
  else Row t y * ncolumns_ t + Col t x.

(** [Tiles::TileCount] *)
Definition TileCount (t : Tiles) : Z :=
  let nrows :=
    div (sub (maxy (tilebounds_ t)) (miny (tilebounds_ t))) (tilesize_ t) in
  to_unsigned (ncolumns_ t * ceil_to_int nrows).

(** The world in degrees, x in [-180,180] and y in [-90,90], in tiles of a
    quarter of a degree. *)
Definition world : Tiles :=
  Tiles_new {| minx := make (-180) 0; miny := make (-90) 0;
               maxx := make 180 0; maxy := make 90 0 |}
            (make 1 (-2)).

(** 89.99999237060546875, the largest float below 90. *)
Definition below_90 : float := pred (make 90 0).

(** 179.9999847412109375, the largest float below 180. *)
Definition below_180 : float := pred (make 180 0).

End Binary32.

(** ** Invariants of the traversal *)

(** The grid of [t'] is that of [t]: only the three lists may differ. *)
Definition same_grid (t t' : Tiles) : Prop :=
  tilebounds_ t' = tilebounds_ t /\ tilesize_ t' = tilesize_ t /\
  nrows_ t' = nrows_ t /\ ncolumns_ t' = ncolumns_ t.



(** ** Concrete grids and boxes of the examples *)

(** Bounds (0,0)-(4,4), tile size 1: 4 columns, 4 rows, 16 tiles. *)
Definition grid44 : Tiles := Tiles_new (AABB2.make 0 0 4 4) 1.



(** [Binary32.world] in exact arithmetic. *)
Definition grid_world : Tiles := Tiles_new (AABB2.make (-90) (-180) 90 180) (1 # 4).

(** (1.25,1.25)-(1.75,1.75), strictly inside tile 5 of [grid44]. *)
Definition box_inner : AABB2.t := AABB2.make (5 # 4) (5 # 4) (7 # 4) (7 # 4).

(** (0.5,0.5)-(1.5,1.5), centered on the corner shared by tiles 0, 1, 4, 5. *)
Definition box_corner : AABB2.t := AABB2.make (1 # 2) (1 # 2) (3 # 2) (3 # 2).

(** (5,5)-(7,7), outside [grid44]. *)
Definition box_outside : AABB2.t := AABB2.make 5 5 7 7.


(** (2.25,1.25)-(2.75,1.75), strictly inside tile 6 of [grid44]. *)
Definition box_right : AABB2.t := AABB2.make (5 # 4) (9 # 4) (7 # 4) (11 # 4).

(** ** Notions of the further properties *)

(** A grid as the constructor is meant to be given: a positive tile size,
    bounds of positive width and height, and a tile count that fits an
    [int] (the product [ncolumns_ * nrows_] is undefined behaviour
    otherwise). *)
Definition proper_grid (bounds : AABB2.t) (tilesize : Q) : Prop :=
  (0 < tilesize)%Q /\
  (AABB2.minx bounds < AABB2.maxx bounds)%Q /\
  (AABB2.miny bounds < AABB2.maxy bounds)%Q /\
  ncolumns_ (Tiles_new bounds tilesize) * nrows_ (Tiles_new bounds tilesize) <= INT_MAX.

(** The same rectangle, coordinate by coordinate. *)
Definition same_box (r1 r2 : AABB2.t) : Prop :=
  (AABB2.minx r1 == AABB2.minx r2 /\ AABB2.miny r1 == AABB2.miny r2 /\
   AABB2.maxx r1 == AABB2.maxx r2 /\ AABB2.maxy r1 == AABB2.maxy r2)%Q.

(** [b] is what one of the four neighbour methods returns for [a]. *)
Definition is_neighbor (t : Tiles) (a b : Z) : Prop :=
  b = LeftNeighbor t a \/ b = RightNeighbor t a \/
  b = TopNeighbor t a \/ b = BottomNeighbor t a.






(** * Proofs *)

(** ** Rationals, floor and ceiling *)

Lemma Qlt_bool_iff a b : Qlt_bool a b = true <-> (a < b)%Q.
Proof.
  unfold Qlt_bool. rewrite negb_true_iff.
  split; intros H.
  - apply Qnot_le_lt. intros Hle. apply Qle_bool_iff in Hle. congruence.
  - destruct (Qle_bool b a) eqn:E; [|reflexivity].
    apply Qle_bool_iff in E. lra.
Qed.

Lemma Qlt_bool_false a b : Qlt_bool a b = false <-> (b <= a)%Q.
Proof.
  unfold Qlt_bool. rewrite negb_false_iff. apply Qle_bool_iff.
Qed.

Lemma float_to_int_inject z : float_to_int (inject_Z z) = z.
Proof. unfold float_to_int, inject_Z. simpl. apply Z.quot_1_r. Qed.

Lemma float_to_int_floor q : (0 <= q)%Q -> float_to_int q = Qfloor q.
Proof.
  destruct q as [n d]. unfold Qle, float_to_int, Qfloor. simpl. intros H.
  apply Z.quot_div_nonneg; lia.
Qed.

Lemma float_to_int_ceil q : float_to_int (ceil q) = Qceiling q.
Proof. apply float_to_int_inject. Qed.

Lemma div_mul (a ts : Q) : (0 < ts)%Q -> (a / ts * ts == a)%Q.
Proof. intros. field. lra. Qed.

Lemma inject_Z_succ (a : Z) : (inject_Z (a + 1) == inject_Z a + 1)%Q.
Proof. rewrite inject_Z_plus. reflexivity. Qed.

Lemma inject_Z_pred (a : Z) : (inject_Z (a - 1) == inject_Z a - 1)%Q.
Proof. unfold Z.sub. rewrite inject_Z_plus. reflexivity. Qed.

Lemma floor_bounds (a ts : Q) : (0 < ts)%Q ->
  (inject_Z (Qfloor (a / ts)) * ts <= a /\ a < inject_Z (Qfloor (a / ts)) * ts + ts)%Q.
Proof.
  intros Hts. pose proof (div_mul a ts Hts) as E.
  pose proof (Qfloor_le (a / ts)) as H1.
  pose proof (Qlt_floor (a / ts)) as H2.
  rewrite inject_Z_succ in H2.
  set (q := (a / ts)%Q) in *. set (c := inject_Z (Qfloor q)) in *.
  assert (c * ts <= q * ts)%Q by (apply Qmult_le_compat_r; lra).
  assert (q * ts < (c + 1) * ts)%Q by (apply Qmult_lt_compat_r; lra).
  split; lra.
Qed.

Lemma ceil_bounds (a ts : Q) : (0 < ts)%Q ->
  (inject_Z (Qceiling (a / ts)) * ts - ts < a /\ a <= inject_Z (Qceiling (a / ts)) * ts)%Q.
Proof.
  intros Hts. pose proof (div_mul a ts Hts) as E.
  pose proof (Qle_ceiling (a / ts)) as H1.
  pose proof (Qceiling_lt (a / ts)) as H2.
  rewrite inject_Z_pred in H2.
  set (q := (a / ts)%Q) in *. set (c := inject_Z (Qceiling q)) in *.
  assert (q * ts <= c * ts)%Q by (apply Qmult_le_compat_r; lra).
  assert ((c - 1) * ts < q * ts)%Q by (apply Qmult_lt_compat_r; lra).
  split; lra.
Qed.

Lemma inject_Z_pos_ge_1 (c : Z) (ts : Q) :
  (0 < ts)%Q -> (0 < inject_Z c * ts)%Q -> 1 <= c.
Proof.
  intros Hts H. destruct (Z_lt_le_dec 0 c) as [|Hc]; [lia|].
  assert (inject_Z c <= 0)%Q as Hq by (rewrite (Zle_Qle c 0) in Hc; exact Hc).
  assert (inject_Z c * ts <= 0 * ts)%Q by (apply Qmult_le_compat_r; lra).
  lra.
Qed.

Lemma scaled_lt (a b : Z) (ts : Q) :
  (0 < ts)%Q -> (inject_Z a * ts < inject_Z b * ts)%Q -> a < b.
Proof.
  intros Hts H. destruct (Z_lt_le_dec a b) as [|Hle]; [assumption|].
  rewrite (Zle_Qle b a) in Hle.
  assert (inject_Z b * ts <= inject_Z a * ts)%Q by (apply Qmult_le_compat_r; lra).
  lra.
Qed.




(** ** Cells of a strip [lo, hi] cut every [ts] *)


(** The cell of a value below the upper edge. *)
Lemma cell_index (lo hi ts v : Q) :
  (0 < ts)%Q -> (lo <= v)%Q -> (v < hi)%Q ->
  let c := float_to_int ((v - lo) / ts) in
  0 <= c < Qceiling ((hi - lo) / ts) /\
  (lo + inject_Z c * ts <= v)%Q /\ (v < lo + inject_Z c * ts + ts)%Q.
Proof.
  intros Hts Hlo Hhi c.
  assert (0 <= (v - lo) / ts)%Q as Hq.
  { apply Qle_shift_div_l; [assumption | lra]. }
  assert (c = Qfloor ((v - lo) / ts)) as Ec by (apply float_to_int_floor; exact Hq).
  destruct (floor_bounds (v - lo) ts Hts) as [F1 F2]. rewrite <- Ec in F1, F2.
  destruct (ceil_bounds (hi - lo) ts Hts) as [_ C2].
  split; [split|split; lra].
  - rewrite Ec. change 0 with (Qfloor 0). apply Qfloor_resp_le. exact Hq.
  - apply (scaled_lt _ _ ts Hts). lra.
Qed.

(** The last cell reaches the upper edge. *)
Lemma last_cell (lo hi ts : Q) :
  (0 < ts)%Q -> (lo < hi)%Q ->
  let n := Qceiling ((hi - lo) / ts) in
  1 <= n /\
  (lo + inject_Z (n - 1) * ts < hi)%Q /\ (hi <= lo + inject_Z (n - 1) * ts + ts)%Q.
Proof.
  intros Hts Hlo n.
  destruct (ceil_bounds (hi - lo) ts Hts) as [C1 C2]. fold n in C1, C2.
  split; [|rewrite inject_Z_pred; split; lra].
  apply (inject_Z_pos_ge_1 _ ts); [assumption | lra].
Qed.


(** ** Integer division and the casts *)

Lemma quot_row_col (n row col : Z) :
  0 <= row -> 0 <= col < n ->
  Z.quot (row * n + col) n = row /\ row * n + col - Z.quot (row * n + col) n * n = col.
Proof.
  intros Hr Hc.
  assert (Z.quot (row * n + col) n = row) as E.
  { rewrite Z.quot_div_nonneg by nia. rewrite Z.div_add_l by lia.
    rewrite Z.div_small by lia. lia. }
  rewrite E. lia.
Qed.

Lemma quot_decompose (n t : Z) :
  1 <= n -> 0 <= t ->
  0 <= Z.quot t n /\ 0 <= t - Z.quot t n * n < n.
Proof.
  intros Hn Ht. rewrite Z.quot_div_nonneg by lia.
  pose proof (Z.div_mod t n ltac:(lia)). pose proof (Z.mod_pos_bound t n ltac:(lia)).
  split; [apply Z.div_pos; lia | lia].
Qed.

Lemma quot_last_row_lower (n r tileid : Z) :
  1 <= n -> 0 <= tileid -> Z.quot tileid n = r -> r * n <= tileid.
Proof.
  intros Hn Ht <-. destruct (quot_decompose n tileid Hn Ht). lia.
Qed.

Lemma to_unsigned_small z : 0 <= z <= INT_MAX -> to_unsigned z = z.
Proof. unfold to_unsigned, INT_MAX. intros. apply Z.mod_small. lia. Qed.

Lemma to_int_small z : 0 <= z <= INT_MAX -> to_int z = z.
Proof. unfold to_int, INT_MAX. intros. rewrite Z.mod_small; lia. Qed.

Lemma to_int_to_unsigned_sub (p n : Z) :
  - 2 ^ 31 <= p - n <= INT_MAX -> to_int (to_unsigned (to_unsigned p - n)) = p - n.
Proof.
  unfold to_int, to_unsigned, INT_MAX. intros H.
  rewrite Zminus_mod_idemp_l. rewrite Zplus_mod_idemp_l.
  rewrite Z.mod_small; lia.
Qed.

(** ** Rows and columns of a constructed grid *)

Section Grid.
Variable bounds : AABB2.t.
Variable tilesize : Q.
Local Abbreviation g := (Tiles_new bounds tilesize).

Lemma ncolumns_Tiles_new :
  ncolumns_ g = Qceiling ((AABB2.maxx bounds - AABB2.minx bounds) / tilesize).
Proof. apply float_to_int_ceil. Qed.

Lemma nrows_Tiles_new :
  nrows_ g = Qceiling ((AABB2.maxy bounds - AABB2.miny bounds) / tilesize).
Proof. apply float_to_int_ceil. Qed.

Lemma TileCount_Tiles_new : TileCount g = to_unsigned (ncolumns_ g * nrows_ g).
Proof. reflexivity. Qed.




Lemma Row_max y :
  (AABB2.miny bounds <= y)%Q -> (y == AABB2.maxy bounds)%Q -> Row g y = nrows_ g - 1.
Proof.
  intros H1 H2. unfold Row. simpl.
  assert (Qlt_bool y (AABB2.miny bounds) = false) as -> by (apply Qlt_bool_false; lra).
  assert (Qlt_bool (AABB2.maxy bounds) y = false) as -> by (apply Qlt_bool_false; lra).
  apply Qeq_bool_iff in H2. rewrite H2. reflexivity.
Qed.

Lemma Col_max x :
  (AABB2.minx bounds <= x)%Q -> (x == AABB2.maxx bounds)%Q -> Col g x = ncolumns_ g - 1.
Proof.
  intros H1 H2. unfold Col. simpl.
  assert (Qlt_bool x (AABB2.minx bounds) = false) as -> by (apply Qlt_bool_false; lra).
  assert (Qlt_bool (AABB2.maxx bounds) x = false) as -> by (apply Qlt_bool_false; lra).
  apply Qeq_bool_iff in H2. rewrite H2. reflexivity.
Qed.

Lemma Row_inner y :
  (AABB2.miny bounds <= y)%Q -> (y < AABB2.maxy bounds)%Q ->
  Row g y = float_to_int ((y - AABB2.miny bounds) / tilesize).
Proof.
  intros H1 H2. unfold Row. simpl.
  assert (Qlt_bool y (AABB2.miny bounds) = false) as -> by (apply Qlt_bool_false; lra).
  assert (Qlt_bool (AABB2.maxy bounds) y = false) as -> by (apply Qlt_bool_false; lra).
  destruct (Qeq_bool y (AABB2.maxy bounds)) eqn:E; [|reflexivity].
  apply Qeq_bool_iff in E. lra.
Qed.

Hypothesis tilesize_pos : (0 < tilesize)%Q.

Lemma Col_inner x :
  (AABB2.minx bounds <= x)%Q -> (x < AABB2.maxx bounds)%Q ->
  Col g x = float_to_int ((x - AABB2.minx bounds) / tilesize).
Proof.
  intros H1 H2. unfold Col. simpl.
  assert (Qlt_bool x (AABB2.minx bounds) = false) as -> by (apply Qlt_bool_false; lra).
  assert (Qlt_bool (AABB2.maxx bounds) x = false) as -> by (apply Qlt_bool_false; lra).
  destruct (Qeq_bool x (AABB2.maxx bounds)) eqn:E.
  { apply Qeq_bool_iff in E. lra. }
  assert (Qle_bool 0 ((x - AABB2.minx bounds) / tilesize) = true) as ->; [|reflexivity].
  apply Qle_bool_iff. apply Qle_shift_div_l; [assumption | lra].
Qed.

Lemma ncolumns_ge_1 :
  (AABB2.minx bounds < AABB2.maxx bounds)%Q -> 1 <= ncolumns_ g.
Proof.
  intros Hx. rewrite ncolumns_Tiles_new.
  apply (last_cell (AABB2.minx bounds) (AABB2.maxx bounds) tilesize tilesize_pos Hx).
Qed.

Lemma nrows_ge_1 :
  (AABB2.miny bounds < AABB2.maxy bounds)%Q -> 1 <= nrows_ g.
Proof.
  intros Hy. rewrite nrows_Tiles_new.
  apply (last_cell (AABB2.miny bounds) (AABB2.maxy bounds) tilesize tilesize_pos Hy).
Qed.

(** Inside the extent [Row] is a row index, and the row's strip holds [y]. *)
Lemma Row_spec y :
  (AABB2.miny bounds < AABB2.maxy bounds)%Q ->
  (AABB2.miny bounds <= y)%Q -> (y <= AABB2.maxy bounds)%Q ->
  0 <= Row g y < nrows_ g /\
  (AABB2.miny bounds + inject_Z (Row g y) * tilesize <= y)%Q /\
  (y <= AABB2.miny bounds + inject_Z (Row g y) * tilesize + tilesize)%Q.
Proof.
  intros Hb H1 H2. rewrite nrows_Tiles_new.
  destruct (Qlt_le_dec y (AABB2.maxy bounds)) as [Hlt|Hge].
  - rewrite (Row_inner y H1 Hlt).
    destruct (cell_index (AABB2.miny bounds) (AABB2.maxy bounds) tilesize y
                tilesize_pos H1 Hlt) as (? & ? & ?).
    repeat split; try lia; lra.
  - assert (y == AABB2.maxy bounds)%Q as E by lra.
    rewrite (Row_max y H1 E). rewrite nrows_Tiles_new.
    destruct (last_cell (AABB2.miny bounds) (AABB2.maxy bounds) tilesize
                tilesize_pos Hb) as (? & ? & ?).
    repeat split; try lia; lra.
Qed.

(** Inside the extent [Col] is a column index, and the column's strip
    holds [x]. *)
Lemma Col_spec x :
  (AABB2.minx bounds < AABB2.maxx bounds)%Q ->
  (AABB2.minx bounds <= x)%Q -> (x <= AABB2.maxx bounds)%Q ->
  0 <= Col g x < ncolumns_ g /\
  (AABB2.minx bounds + inject_Z (Col g x) * tilesize <= x)%Q /\
  (x <= AABB2.minx bounds + inject_Z (Col g x) * tilesize + tilesize)%Q.
Proof.
  intros Hb H1 H2. rewrite ncolumns_Tiles_new.
  destruct (Qlt_le_dec x (AABB2.maxx bounds)) as [Hlt|Hge].
  - rewrite (Col_inner x H1 Hlt).
    destruct (cell_index (AABB2.minx bounds) (AABB2.maxx bounds) tilesize x
                tilesize_pos H1 Hlt) as (? & ? & ?).
    repeat split; try lia; lra.
  - assert (x == AABB2.maxx bounds)%Q as E by lra.
    rewrite (Col_max x H1 E). rewrite ncolumns_Tiles_new.
    destruct (last_cell (AABB2.minx bounds) (AABB2.maxx bounds) tilesize
                tilesize_pos Hb) as (? & ? & ?).
    repeat split; try lia; lra.
Qed.

End Grid.



(** ** Tile ids *)

Lemma TileId_yx_inside (t : Tiles) (y x : Q) :
  (AABB2.miny (tilebounds_ t) <= y)%Q -> (y <= AABB2.maxy (tilebounds_ t))%Q ->
  (AABB2.minx (tilebounds_ t) <= x)%Q -> (x <= AABB2.maxx (tilebounds_ t))%Q ->
  TileId_yx t y x = Row t y * ncolumns_ t + Col t x.
Proof.
  intros H1 H2 H3 H4. unfold TileId_yx.
  apply Qlt_bool_false in H1, H2, H3, H4. rewrite H1, H2, H3, H4. reflexivity.
Qed.

Lemma TileId_yx_outside (t : Tiles) (y x : Q) :
  (y < AABB2.miny (tilebounds_ t) \/ x < AABB2.minx (tilebounds_ t) \/
   AABB2.maxy (tilebounds_ t) < y \/ AABB2.maxx (tilebounds_ t) < x)%Q ->
  TileId_yx t y x = -1.
Proof.
  intros H. unfold TileId_yx.
  destruct H as [H|[H|[H|H]]]; apply Qlt_bool_iff in H; rewrite H;
    rewrite ?orb_true_r; reflexivity.
Qed.

Lemma TileId_yx_cases (t : Tiles) (y x : Q) :
  TileId_yx t y x = -1 \/
  ((AABB2.miny (tilebounds_ t) <= y)%Q /\ (y <= AABB2.maxy (tilebounds_ t))%Q /\
   (AABB2.minx (tilebounds_ t) <= x)%Q /\ (x <= AABB2.maxx (tilebounds_ t))%Q /\
   TileId_yx t y x = Row t y * ncolumns_ t + Col t x).
Proof.
  destruct (Qlt_le_dec y (AABB2.miny (tilebounds_ t))) as [|H1];
    [left; apply TileId_yx_outside; tauto|].
  destruct (Qlt_le_dec x (AABB2.minx (tilebounds_ t))) as [|H2];
    [left; apply TileId_yx_outside; tauto|].
  destruct (Qlt_le_dec (AABB2.maxy (tilebounds_ t)) y) as [|H3];
    [left; apply TileId_yx_outside; tauto|].
  destruct (Qlt_le_dec (AABB2.maxx (tilebounds_ t)) x) as [|H4];
    [left; apply TileId_yx_outside; tauto|].
  right. repeat split; try assumption. apply TileId_yx_inside; assumption.
Qed.

Lemma tileid_rowcol (t : Tiles) (tileid : Z) :
  1 <= ncolumns_ t -> 0 <= tileid ->
  exists row col, tileid = row * ncolumns_ t + col /\ 0 <= row /\ 0 <= col < ncolumns_ t.
Proof.
  intros Hn Ht. destruct (quot_decompose (ncolumns_ t) tileid Hn Ht) as [H1 H2].
  exists (Z.quot tileid (ncolumns_ t)), (tileid - Z.quot tileid (ncolumns_ t) * ncolumns_ t).
  repeat split; lia.
Qed.

Section ProperGrid.
Variable bounds : AABB2.t.
Variable tilesize : Q.
Local Abbreviation g := (Tiles_new bounds tilesize).
Hypothesis tilesize_pos : (0 < tilesize)%Q.
Hypothesis width_pos : (AABB2.minx bounds < AABB2.maxx bounds)%Q.
Hypothesis height_pos : (AABB2.miny bounds < AABB2.maxy bounds)%Q.

(** A point of the extent has a row, a column, and an id below the
    product of the counts. *)
Lemma TileId_yx_spec y x :
  (AABB2.miny bounds <= y)%Q -> (y <= AABB2.maxy bounds)%Q ->
  (AABB2.minx bounds <= x)%Q -> (x <= AABB2.maxx bounds)%Q ->
  TileId_yx g y x = Row g y * ncolumns_ g + Col g x /\
  0 <= Row g y < nrows_ g /\ 0 <= Col g x < ncolumns_ g /\
  0 <= TileId_yx g y x < ncolumns_ g * nrows_ g.
Proof.
  intros H1 H2 H3 H4.
  assert (TileId_yx g y x = Row g y * ncolumns_ g + Col g x) as E
    by (apply TileId_yx_inside; assumption).
  destruct (Row_spec bounds tilesize tilesize_pos y height_pos H1 H2) as [Hr _].
  destruct (Col_spec bounds tilesize tilesize_pos x width_pos H3 H4) as [Hc _].
  repeat split; try lia; rewrite E; nia.
Qed.

Lemma TileId_cases (c : Point2.t) :
  TileId g c = -1 \/ 0 <= TileId g c < ncolumns_ g * nrows_ g.
Proof.
  unfold TileId.
  destruct (TileId_yx_cases g (Point2.y c) (Point2.x c)) as [E|(H1 & H2 & H3 & H4 & _)];
    [left; exact E|right].
  apply (TileId_yx_spec _ _ H1 H2 H3 H4).
Qed.


Hypothesis count_fits : ncolumns_ g * nrows_ g <= INT_MAX.

(** No wrap-around in [TileCount] when the product fits an [int]. *)
Lemma TileCount_proper : TileCount g = ncolumns_ g * nrows_ g.
Proof.
  rewrite TileCount_Tiles_new. apply to_unsigned_small.
  pose proof (ncolumns_ge_1 bounds tilesize tilesize_pos width_pos).
  pose proof (nrows_ge_1 bounds tilesize tilesize_pos height_pos).
  nia.
Qed.


End ProperGrid.

(** In exact arithmetic, on a grid with a positive tile size and bounds of
    positive width and height (whose tile count fits an [int]), the
    point-based [TileId] returns -1 or a value from 0 to
    [TileCount() - 1]. *)
Lemma TileId_range_exact (bounds : AABB2.t) (tilesize : Q) (c : Point2.t) :
  (0 < tilesize)%Q ->
  (AABB2.minx bounds < AABB2.maxx bounds)%Q ->
  (AABB2.miny bounds < AABB2.maxy bounds)%Q ->
  let g := Tiles_new bounds tilesize in
  ncolumns_ g * nrows_ g <= INT_MAX ->
  TileId g c = -1 \/ 0 <= TileId g c <= TileCount g - 1.
Proof.
  intros Hts Hx Hy g Hfit. subst g.
  rewrite (TileCount_proper bounds tilesize Hts Hx Hy Hfit).
  destruct (TileId_cases bounds tilesize Hts Hx Hy c) as [E|H]; [left; exact E|right; lia].
Qed.

(** C5, at the failing input.  In binary32, on the world grid (bounds
    x in [-180,180], y in [-90,90], tile size 0.25: 1440 columns, 720 rows,
    1036800 tiles) the point x = 179.99998474..., the largest float below
    180, y = 89.875 is inside the bounds and not on an upper edge, yet
    [(x - minx) / tilesize_] rounds to 1440 and [Col] returns 1440, the
    column count: the point-based [TileId] returns 719 * 1440 + 1440 =
    1036800 = [TileCount()], which is neither -1 nor a value from 0 to
    [TileCount() - 1].  [Row] does the same at y = 89.99999237..., the
    largest float below 90: it returns 720, the row count. *)
Theorem TileId_binary32_out_of_range :
  SFltb Binary32.below_180 (Binary32.maxx (Binary32.tilebounds_ Binary32.world)) = true /\
  SFltb Binary32.below_90 (Binary32.maxy (Binary32.tilebounds_ Binary32.world)) = true /\
  Binary32.ncolumns_ Binary32.world = 1440 /\
  Binary32.nrows_ Binary32.world = 720 /\
  Binary32.TileCount Binary32.world = 1036800 /\
  Binary32.Col Binary32.world Binary32.below_180 = 1440 /\
  Binary32.Row Binary32.world Binary32.below_90 = 720 /\
  Binary32.TileId_yx Binary32.world (Binary32.make 719 (-3)) Binary32.below_180 = 1036800 /\
  Binary32.TileId_yx Binary32.world Binary32.below_90 (Binary32.make 0 0) = 1037520.
Proof. vm_compute. repeat split; reflexivity. Qed.

(** Away from the upper edges the two readings agree: the origin is in row
    360 and column 720, and the upper edges fold into the last row and
    column. *)
Example world_origin :
  Binary32.TileId_yx Binary32.world (Binary32.make 0 0) (Binary32.make 0 0) = 360 * 1440 + 720 /\
  TileId grid_world (Point2.make 0 0) = 360 * 1440 + 720 /\
  Binary32.TileId_yx Binary32.world (Binary32.make 90 0) (Binary32.make 180 0) = 1036799 /\
  TileId grid_world (Point2.make 90 180) = 1036799.
Proof. vm_compute. auto. Qed.

(** The same points in exact arithmetic are in the last column and the
    last row. *)
Example grid_world_exact :
  Col grid_world (180 - (1 # 65536))%Q = 1439 /\
  Row grid_world (90 - (1 # 131072))%Q = 719 /\
  TileId grid_world (Point2.make (719 # 8) (180 - (1 # 65536))%Q) = 1036799.
Proof. vm_compute. auto. Qed.

(** ** Round trip through the center of a tile *)





(** ** Neighbours *)

Lemma RightNeighbor_rowcol (t : Tiles) (row col : Z) :
  0 <= row -> 0 <= col < ncolumns_ t ->
  RightNeighbor t (row * ncolumns_ t + col) =
  if col <? ncolumns_ t - 1 then row * ncolumns_ t + (col + 1) else row * ncolumns_ t + 0.
Proof.
  intros Hr Hc. unfold RightNeighbor.
  destruct (quot_row_col (ncolumns_ t) row col Hr Hc) as [E1 E2].
  rewrite E2. destruct (col <? ncolumns_ t - 1) eqn:E.
  - lia.
  - apply Z.ltb_ge in E. lia.
Qed.

Lemma LeftNeighbor_rowcol (t : Tiles) (row col : Z) :
  0 <= row -> 0 <= col < ncolumns_ t ->
  LeftNeighbor t (row * ncolumns_ t + col) =
  if 0 <? col then row * ncolumns_ t + (col - 1)
  else row * ncolumns_ t + (ncolumns_ t - 1).
Proof.
  intros Hr Hc. unfold LeftNeighbor.
  destruct (quot_row_col (ncolumns_ t) row col Hr Hc) as [E1 E2].
  rewrite E2. destruct (0 <? col) eqn:E; [lia|].
  apply Z.ltb_ge in E. lia.
Qed.

(** C8.  On a grid with at least one column, for every tile id from 0 to
    [TileCount() - 1], the left neighbour of the right neighbour and the
    right neighbour of the left neighbour are the tile itself. *)
Theorem Left_Right_inverse (t : Tiles) (tileid : Z) :
  1 <= ncolumns_ t -> 0 <= tileid < TileCount t ->
  LeftNeighbor t (RightNeighbor t tileid) = tileid /\
  RightNeighbor t (LeftNeighbor t tileid) = tileid.
Proof.
  intros Hn [Ht _].
  destruct (tileid_rowcol t tileid Hn Ht) as (row & col & -> & Hr & Hc).
  rewrite RightNeighbor_rowcol, LeftNeighbor_rowcol by assumption. split.
  - destruct (col <? ncolumns_ t - 1) eqn:E.
    + apply Z.ltb_lt in E. rewrite LeftNeighbor_rowcol by lia.
      assert ((0 <? col + 1) = true) as -> by (apply Z.ltb_lt; lia). f_equal; lia.
    + apply Z.ltb_ge in E. rewrite LeftNeighbor_rowcol by lia.
      simpl. f_equal; lia.
  - destruct (0 <? col) eqn:E.
    + apply Z.ltb_lt in E. rewrite RightNeighbor_rowcol by lia.
      assert ((col - 1 <? ncolumns_ t - 1) = true) as -> by (apply Z.ltb_lt; lia).
      f_equal; lia.
    + apply Z.ltb_ge in E. rewrite RightNeighbor_rowcol by lia.
      rewrite Z.ltb_irrefl. lia.
Qed.

(** Tile 7 ends row 1 of the 4 by 4 grid: its right neighbour is 4, whose
    left neighbour is 7 again. *)
Lemma Left_Right_inverse_witness :
  1 <= ncolumns_ grid44 /\ 0 <= 7 < TileCount grid44 /\
  RightNeighbor grid44 7 = 4 /\
  LeftNeighbor grid44 (RightNeighbor grid44 7) = 7 /\
  RightNeighbor grid44 (LeftNeighbor grid44 7) = 7.
Proof.
  assert (1 <= ncolumns_ grid44) as Hn by (vm_compute; discriminate).
  assert (0 <= 7 < TileCount grid44) as Ht by (vm_compute; split; [discriminate | reflexivity]).
  split; [exact Hn|]. split; [exact Ht|]. split; [reflexivity|].
  exact (Left_Right_inverse grid44 7 Hn Ht).
Defined.

(** C9.  On every grid: a tile id below the column count (row 0) is its
    own bottom neighbour; a tile id of the last row (when the tile count
    fits an [int]) is its own top neighbour; and a vertical neighbour is
    the tile itself or the id one row away, never a wrapped one. *)
Theorem vertical_neighbors_no_wrap (bounds : AABB2.t) (tilesize : Q) (tileid : Z) :
  let g := Tiles_new bounds tilesize in
  (tileid < ncolumns_ g -> BottomNeighbor g tileid = tileid) /\
  (ncolumns_ g * nrows_ g <= INT_MAX ->
   0 <= tileid < TileCount g ->
   Z.quot tileid (ncolumns_ g) = nrows_ g - 1 ->
   TopNeighbor g tileid = tileid) /\
  (BottomNeighbor g tileid = tileid \/ BottomNeighbor g tileid = tileid - ncolumns_ g) /\
  (TopNeighbor g tileid = tileid \/ TopNeighbor g tileid = tileid + ncolumns_ g).
Proof.
  intros g. split; [|split; [|split]].
  - intros H. unfold BottomNeighbor. apply Z.ltb_lt in H. rewrite H. reflexivity.
  - intros Hint Ht Hrow. unfold TopNeighbor.
    assert ((tileid <? to_int (to_unsigned (TileCount g - ncolumns_ g))) = false) as ->;
      [|reflexivity].
    apply Z.ltb_ge. subst g. rewrite TileCount_Tiles_new in *.
    set (n := ncolumns_ (Tiles_new bounds tilesize)) in *.
    set (r := nrows_ (Tiles_new bounds tilesize)) in *. clearbody n r.
    destruct Ht as [Ht0 Ht1].
    destruct (Z_lt_le_dec 0 n) as [Hn|Hn].
    + assert (1 <= n) as Hn1 by lia.
      pose proof (quot_last_row_lower n (r - 1) tileid Hn1 Ht0 Hrow).
      assert (0 <= r - 1) by (rewrite <- Hrow; apply Z.quot_pos; lia).
      rewrite to_int_to_unsigned_sub; unfold INT_MAX in *; nia.
    + destruct (Z.eq_dec n 0) as [E|Hne].
      { subst n. rewrite Z.mul_0_l in Ht1. change (to_unsigned 0) with 0 in Ht1. lia. }
      destruct (quot_decompose (- n) tileid ltac:(lia) Ht0) as [Hq0 Hq1].
      rewrite Z.quot_opp_r in Hq0, Hq1 by lia. rewrite Hrow in Hq0, Hq1.
      destruct (Z.eq_dec r 1) as [->|Hr1].
      * rewrite Z.mul_1_r. rewrite to_int_to_unsigned_sub; unfold INT_MAX; lia.
      * rewrite to_unsigned_small in Ht1 by (unfold INT_MAX in *; nia). nia.
  - unfold BottomNeighbor. destruct (tileid <? ncolumns_ g); auto.
  - unfold TopNeighbor. destruct (_ <? _); auto.
Qed.

(** Tile 13 is in the last row (row 3) of the 4 by 4 grid; tile 2 is in
    row 0. *)
Lemma vertical_neighbors_no_wrap_witness :
  Z.quot 13 (ncolumns_ grid44) = nrows_ grid44 - 1 /\ TopNeighbor grid44 13 = 13 /\
  2 < ncolumns_ grid44 /\ BottomNeighbor grid44 2 = 2.
Proof.
  split; [reflexivity|].
  split.
  - apply (vertical_neighbors_no_wrap (AABB2.make 0 0 4 4) 1 13).
    + vm_compute; discriminate.
    + vm_compute; split; [discriminate | reflexivity].
    + reflexivity.
  - split; [reflexivity|].
    apply (vertical_neighbors_no_wrap (AABB2.make 0 0 4 4) 1 2). reflexivity.
Defined.

Section ProperNeighbors.
Variable bounds : AABB2.t.
Variable tilesize : Q.
Local Abbreviation g := (Tiles_new bounds tilesize).
Hypothesis tilesize_pos : (0 < tilesize)%Q.
Hypothesis width_pos : (AABB2.minx bounds < AABB2.maxx bounds)%Q.
Hypothesis height_pos : (AABB2.miny bounds < AABB2.maxy bounds)%Q.
Hypothesis count_fits : ncolumns_ g * nrows_ g <= INT_MAX.


End ProperNeighbors.

(** ** The traversal: what each step keeps *)

Lemma same_grid_refl t : same_grid t t.
Proof. repeat split. Qed.

Lemma same_grid_trans t1 t2 t3 : same_grid t1 t2 -> same_grid t2 t3 -> same_grid t1 t3.
Proof. unfold same_grid. intros (? & ? & ? & ?) (? & ? & ? & ?). repeat split; congruence. Qed.

Lemma same_grid_neighbors t t' id :
  same_grid t t' ->
  LeftNeighbor t' id = LeftNeighbor t id /\ RightNeighbor t' id = RightNeighbor t id /\
  TopNeighbor t' id = TopNeighbor t id /\ BottomNeighbor t' id = BottomNeighbor t id.
Proof.
  intros (E1 & E2 & E3 & E4).
  unfold LeftNeighbor, RightNeighbor, TopNeighbor, BottomNeighbor, TileCount.
  rewrite E1, E2, E4. repeat split.
Qed.

Lemma same_grid_TileBounds_id t t' id :
  same_grid t t' -> TileBounds_id t' id = TileBounds_id t id.
Proof.
  intros (E1 & E2 & E3 & E4). unfold TileBounds_id, Base. rewrite E1, E2, E4. reflexivity.
Qed.

Lemma same_grid_TileId t t' c : same_grid t t' -> TileId t' c = TileId t c.
Proof.
  intros (E1 & E2 & E3 & E4). unfold TileId, TileId_yx, Row, Col.
  rewrite E1, E2, E3, E4. reflexivity.
Qed.

Lemma same_grid_clear_lists t : same_grid t (clear_lists t).
Proof. repeat split. Qed.

Lemma same_grid_checkNeighbor t id n : same_grid t (checkNeighbor id n t).
Proof. unfold checkNeighbor. destruct (_ && _); repeat split. Qed.

(** The neighbour functions read the grid only, which [checkNeighbor]
    leaves alone. *)
Lemma addNeighbors_unfold t id :
  addNeighbors id t =
  checkNeighbor id (BottomNeighbor t id)
    (checkNeighbor id (TopNeighbor t id)
       (checkNeighbor id (RightNeighbor t id)
          (checkNeighbor id (LeftNeighbor t id) t))).
Proof.
  unfold addNeighbors.
  set (t1 := checkNeighbor id (LeftNeighbor t id) t).
  assert (same_grid t t1) as G1 by apply same_grid_checkNeighbor.
  destruct (same_grid_neighbors t t1 id G1) as (_ & -> & _ & _).
  set (t2 := checkNeighbor id (RightNeighbor t id) t1).
  assert (same_grid t t2) as G2
    by (eapply same_grid_trans; [exact G1 | apply same_grid_checkNeighbor]).
  destruct (same_grid_neighbors t t2 id G2) as (_ & _ & -> & _).
  set (t3 := checkNeighbor id (TopNeighbor t id) t2).
  assert (same_grid t t3) as G3
    by (eapply same_grid_trans; [exact G2 | apply same_grid_checkNeighbor]).
  destruct (same_grid_neighbors t t3 id G3) as (_ & _ & _ & ->).
  reflexivity.
Qed.

Lemma tilelist_checkNeighbor t id n : tilelist_ (checkNeighbor id n t) = tilelist_ t.
Proof. unfold checkNeighbor. destruct (_ && _); reflexivity. Qed.

Lemma tilelist_addNeighbors t id : tilelist_ (addNeighbors id t) = tilelist_ t.
Proof. rewrite addNeighbors_unfold. rewrite !tilelist_checkNeighbor. reflexivity. Qed.

Lemma InList_true t x : InList t x = true <-> is_Some (visitedtiles_ t !! x).
Proof.
  unfold InList. destruct (visitedtiles_ t !! x); split; intros H;
    try reflexivity; try discriminate; eauto. destruct H; discriminate.
Qed.

(** A tile is marked when it is enqueued, and marks are never removed. *)
Lemma InList_enqueue t n x :
  InList (enqueue n t) x = true <-> x = n \/ InList t x = true.
Proof.
  rewrite !InList_true. simpl. rewrite lookup_insert_is_Some.
  destruct (decide (n = x)); intuition congruence.
Qed.







Section Enumeration.
Context `{M : AABB2_methods}.
Variable g : Tiles.
Variable boundingbox : AABB2.t.
Variables P Q : Z -> Prop.
Hypothesis P_neighbors : forall id, P id ->
  P (LeftNeighbor g id) /\ P (RightNeighbor g id) /\
  P (TopNeighbor g id) /\ P (BottomNeighbor g id).
Hypothesis Q_Intersects : forall id,
  Intersects boundingbox (TileBounds_id g id) = true -> Q id.








Hypothesis seed_PQ :
  TileId g (Center boundingbox) <> -1 ->
  P (TileId g (Center boundingbox)) /\ Q (TileId g (Center boundingbox)).


(** *** Termination, when the marked ids lie in [0, n) *)

Variable n : Z.
Hypothesis P_bounded : forall id, P id -> 0 <= id < n.





End Enumeration.

(** ** [TileList] *)

(** The closed-interval model of the collaborators meets the contract. *)
#[export] Instance spec_contract : AABB2_contract spec_methods.
Proof.
  split.
  - intros r [Hx Hy]. unfold AABB2.Contains. simpl.
    assert (forall a b : Q, (a <= b -> a <= (a + b) / 2 /\ (a + b) / 2 <= b)%Q) as Hmid.
    { intros a b Hab. assert ((a + b) / 2 == (a + b) * (1 # 2))%Q as -> by (field). lra. }
    destruct (Hmid _ _ Hx), (Hmid _ _ Hy). auto.
  - intros r1 r2 p (A1 & A2 & A3 & A4) (B1 & B2 & B3 & B4). simpl.
    unfold spec_Intersects. rewrite !andb_true_iff, !Qle_bool_iff.
    repeat split; lra.
Qed.


(** [NextTile] leaves [tilelist_] alone. *)
Lemma tilelist_NextTile_loop `{M : AABB2_methods} bb cl t :
  tilelist_ (NextTile_loop bb cl t).2 = tilelist_ t.
Proof.
  revert t. induction cl as [|x rest IH]; intros t; simpl; [reflexivity|].
  destruct (Intersects bb (TileBounds_id t x)); [|apply IH].
  simpl. rewrite tilelist_addNeighbors. reflexivity.
Qed.



(** C1, at the failing input.  With [maxtiles = 1] on the 4 by 4 grid and
    the box (0.5,0.5)-(1.5,1.5), [TileList] returns four tiles: the seed is
    stored before the loop, and the loop compares the size with the cap
    only after storing one more. *)
Theorem TileList_maxtiles_1 :
  TileList 16 grid44 box_corner 1 = Some [5; 4; 1; 0] /\
  1 < Z.of_nat (length [5; 4; 1; 0]).
Proof. split; vm_compute; reflexivity. Qed.

(** C3.  When the center of the box lies outside the bounds of the grid,
    [TileList] returns the empty sequence, whatever [maxtiles] is and
    before any loop iteration. *)
Theorem TileList_center_outside `{M : AABB2_methods} (t : Tiles)
    (boundingbox : AABB2.t) (maxtiles : Z) (fuel : nat) :
  (Point2.y (Center boundingbox) < AABB2.miny (tilebounds_ t) \/
   Point2.x (Center boundingbox) < AABB2.minx (tilebounds_ t) \/
   AABB2.maxy (tilebounds_ t) < Point2.y (Center boundingbox) \/
   AABB2.maxx (tilebounds_ t) < Point2.x (Center boundingbox))%Q ->
  TileList fuel t boundingbox maxtiles = Some [].
Proof.
  intros Hout. unfold TileList, TileList_run.
  rewrite (same_grid_TileId t (clear_lists t)) by apply same_grid_clear_lists.
  unfold TileId. rewrite TileId_yx_outside by exact Hout. reflexivity.
Qed.

(** The box (5,5)-(7,7) is centered at (6,6), right of the 4 by 4 grid. *)
Lemma TileList_center_outside_witness :
  (AABB2.maxx (tilebounds_ grid44) < Point2.x (Center box_outside))%Q /\
  TileList 0 grid44 box_outside 3 = Some [].
Proof.
  split; [reflexivity|].
  apply (TileList_center_outside grid44 box_outside 3 0).
  right. right. right. reflexivity.
Defined.








(** ** The scenarios of the spec, section 8 *)

Example grid44_counts :
  ncolumns_ grid44 = 4 /\ nrows_ grid44 = 4 /\ TileCount grid44 = 16.
Proof. vm_compute. auto. Qed.

Example grid44_TileId :
  TileId grid44 (Point2.make (1 # 2) (1 # 2)) = 0 /\
  TileId grid44 (Point2.make (399 # 100) (399 # 100)) = 15 /\
  TileId grid44 (Point2.make 4 4) = 15 /\
  TileId grid44 (Point2.make 5 5) = -1.
Proof. vm_compute. auto. Qed.

(** A box strictly inside tile 5 meets no other tile. *)
Example grid44_TileList_inner : TileList 16 grid44 box_inner 100 = Some [5].
Proof. vm_compute. reflexivity. Qed.

(** With a cap of two the cap holds. *)
Example grid44_TileList_max2 : TileList 16 grid44 box_corner 2 = Some [5; 4].
Proof. vm_compute. reflexivity. Qed.

(** * Further properties *)

(** ** The grid the constructor builds *)







(** ** Centers, bounds and the coordinate maps *)



(** X5.  The two overloads of [TileBounds] agree: for a row that is not
    negative and a column of the grid, [TileBounds(col, row)] is the
    rectangle [TileBounds(TileId(col, row))]. *)
Theorem TileBounds_colrow_agrees (t : Tiles) (col row : Z) :
  0 <= row -> 0 <= col < ncolumns_ t ->
  same_box (TileBounds_colrow t col row) (TileBounds_id t (TileId_colrow t col row)).
Proof.
  intros Hr Hc. unfold same_box, TileBounds_colrow, TileBounds_id, Base, TileId_colrow.
  destruct (quot_row_col (ncolumns_ t) row col Hr Hc) as [E1 E2].
  rewrite E2, E1. simpl. repeat split; ring.
Qed.

Lemma TileBounds_colrow_agrees_witness :
  0 <= 2 < ncolumns_ grid44 /\
  same_box (TileBounds_colrow grid44 2 1) (TileBounds_id grid44 6).
Proof.
  assert (0 <= 2 < ncolumns_ grid44) as Hc by (vm_compute; split; [discriminate | reflexivity]).
  split; [exact Hc|].
  apply (TileBounds_colrow_agrees grid44 2 1); [vm_compute; discriminate | exact Hc].
Defined.

Lemma quot_add_row (n id : Z) : 1 <= n -> 0 <= id -> Z.quot (id + n) n = Z.quot id n + 1.
Proof.
  intros Hn Hid. rewrite !Z.quot_div_nonneg by lia.
  replace (id + n) with (id + 1 * n) by lia. rewrite Z.div_add by lia. reflexivity.
Qed.

Lemma quot_sub_row (n id : Z) : 1 <= n -> n <= id -> Z.quot (id - n) n = Z.quot id n - 1.
Proof.
  intros Hn Hid. pose proof (quot_add_row n (id - n) Hn ltac:(lia)) as H.
  replace (id - n + n) with id in H by lia. lia.
Qed.





(** ** Offsets between tiles *)

(** X8.  [GetRelativeTileId] undoes [TileOffsets]: moving from
    [initial_tileid] by the row and column offsets that [TileOffsets]
    computes to [newtileid] arrives at [newtileid], for all ids.  On a grid
    with at least one column and for ids that are not negative, the column
    offset lies strictly between [-ncolumns_] and [ncolumns_]. *)
Theorem GetRelativeTileId_TileOffsets (t : Tiles) (initial_tileid newtileid : Z) :
  GetRelativeTileId t initial_tileid
    (TileOffsets t initial_tileid newtileid).1
    (TileOffsets t initial_tileid newtileid).2 = newtileid /\
  (1 <= ncolumns_ t -> 0 <= initial_tileid -> 0 <= newtileid ->
   - ncolumns_ t < (TileOffsets t initial_tileid newtileid).2 < ncolumns_ t).
Proof.
  unfold GetRelativeTileId, TileOffsets. simpl. split; [lia|].
  intros Hn Ha Hb.
  destruct (quot_decompose (ncolumns_ t) initial_tileid Hn Ha) as [_ H1].
  destruct (quot_decompose (ncolumns_ t) newtileid Hn Hb) as [_ H2].
  lia.
Qed.

Lemma GetRelativeTileId_TileOffsets_witness :
  TileOffsets grid44 6 13 = (2, -1) /\ GetRelativeTileId grid44 6 2 (-1) = 13 /\
  - ncolumns_ grid44 < -1 < ncolumns_ grid44.
Proof.
  destruct (GetRelativeTileId_TileOffsets grid44 6 13) as [A B].
  split; [reflexivity|]. split; [exact A|].
  apply B; vm_compute; discriminate.
Defined.

(** X9.  [TileOffsets] recovers the offsets given to [GetRelativeTileId]
    when the move stays inside the columns of the grid: the row of the start
    plus [delta_rows] is not negative, and the column of the start plus
    [delta_cols] is a column of the grid. *)
Theorem TileOffsets_GetRelativeTileId (t : Tiles) (initial_tile delta_rows delta_cols : Z) :
  1 <= ncolumns_ t -> 0 <= initial_tile ->
  0 <= Z.quot initial_tile (ncolumns_ t) + delta_rows ->
  0 <= initial_tile - Z.quot initial_tile (ncolumns_ t) * ncolumns_ t + delta_cols
    < ncolumns_ t ->
  TileOffsets t initial_tile (GetRelativeTileId t initial_tile delta_rows delta_cols)
  = (delta_rows, delta_cols).
Proof.
  intros Hn Ha Hr Hc. unfold TileOffsets, GetRelativeTileId.
  set (n := ncolumns_ t) in *. set (r := Z.quot initial_tile n) in *.
  set (c := initial_tile - r * n) in *.
  assert (initial_tile + delta_rows * n + delta_cols = (r + delta_rows) * n + (c + delta_cols))
    as -> by (unfold c; lia).
  destruct (quot_row_col n (r + delta_rows) (c + delta_cols) Hr Hc) as [E _].
  rewrite E. f_equal; unfold c; lia.
Qed.

Lemma TileOffsets_GetRelativeTileId_witness :
  1 <= ncolumns_ grid44 /\ GetRelativeTileId grid44 6 2 (-1) = 13 /\
  TileOffsets grid44 6 13 = (2, -1).
Proof.
  split; [vm_compute; discriminate|]. split; [reflexivity|].
  apply (TileOffsets_GetRelativeTileId grid44 6 2 (-1));
    vm_compute; (discriminate || (split; [discriminate | reflexivity])).
Defined.

(** ** More on the four neighbours *)

(** X10.  On a grid with at least one column and for a tile id that is not
    negative, [RightNeighbor] and [LeftNeighbor] return a tile of the same
    row (they wrap around inside it), and [TopNeighbor] and [BottomNeighbor]
    return a tile of the same column. *)
Theorem neighbors_keep_row_or_column (t : Tiles) (tileid : Z) :
  1 <= ncolumns_ t -> 0 <= tileid ->
  Z.quot (RightNeighbor t tileid) (ncolumns_ t) = Z.quot tileid (ncolumns_ t) /\
  Z.quot (LeftNeighbor t tileid) (ncolumns_ t) = Z.quot tileid (ncolumns_ t) /\
  Z.rem (TopNeighbor t tileid) (ncolumns_ t) = Z.rem tileid (ncolumns_ t) /\
  Z.rem (BottomNeighbor t tileid) (ncolumns_ t) = Z.rem tileid (ncolumns_ t).
Proof.
  intros Hn Hid.
  destruct (tileid_rowcol t tileid Hn Hid) as (row & col & E & Hrow & Hcol).
  destruct (quot_row_col (ncolumns_ t) row col Hrow Hcol) as [Eq _].
  split; [|split; [|split]].
  - rewrite E, RightNeighbor_rowcol, Eq by assumption.
    destruct (col <? ncolumns_ t - 1) eqn:Ec; [apply Z.ltb_lt in Ec|];
      apply quot_row_col; lia.
  - rewrite E, LeftNeighbor_rowcol, Eq by assumption.
    destruct (0 <? col) eqn:Ec; [apply Z.ltb_lt in Ec|]; apply quot_row_col; lia.
  - unfold TopNeighbor. destruct (tileid <? _); [|reflexivity].
    rewrite !Z.rem_mod_nonneg by lia.
    replace (tileid + ncolumns_ t) with (tileid + 1 * ncolumns_ t) by lia.
    apply Z.mod_add. lia.
  - unfold BottomNeighbor. destruct (tileid <? ncolumns_ t) eqn:Ec; [reflexivity|].
    apply Z.ltb_ge in Ec. rewrite !Z.rem_mod_nonneg by lia.
    replace (tileid - ncolumns_ t) with (tileid + (-1) * ncolumns_ t) by lia.
    apply Z.mod_add. lia.
Qed.

Lemma neighbors_keep_row_or_column_witness :
  1 <= ncolumns_ grid44 /\ RightNeighbor grid44 7 = 4 /\
  Z.quot (RightNeighbor grid44 7) (ncolumns_ grid44) = Z.quot 7 (ncolumns_ grid44).
Proof.
  assert (1 <= ncolumns_ grid44) as Hn by (vm_compute; discriminate).
  split; [exact Hn|]. split; [reflexivity|].
  apply (neighbors_keep_row_or_column grid44 7 Hn). vm_compute; discriminate.
Defined.

(** X11.  On a grid with at least one column and for a tile id that is not
    negative: the tile is its own right neighbour, and its own left
    neighbour, exactly when the grid has a single column; on a grid of two
    columns the left and the right neighbour are the same tile. *)
Theorem horizontal_neighbor_is_self_iff (t : Tiles) (tileid : Z) :
  1 <= ncolumns_ t -> 0 <= tileid ->
  (RightNeighbor t tileid = tileid <-> ncolumns_ t = 1) /\
  (LeftNeighbor t tileid = tileid <-> ncolumns_ t = 1) /\
  (ncolumns_ t = 2 -> LeftNeighbor t tileid = RightNeighbor t tileid).
Proof.
  intros Hn Hid.
  destruct (tileid_rowcol t tileid Hn Hid) as (row & col & -> & Hrow & Hcol).
  rewrite RightNeighbor_rowcol, LeftNeighbor_rowcol by assumption.
  destruct (col <? ncolumns_ t - 1) eqn:E1; [apply Z.ltb_lt in E1|apply Z.ltb_ge in E1];
    (destruct (0 <? col) eqn:E2; [apply Z.ltb_lt in E2|apply Z.ltb_ge in E2]);
    repeat split; intros; lia.
Qed.

Lemma horizontal_neighbor_is_self_iff_witness :
  1 <= ncolumns_ grid44 /\ RightNeighbor grid44 7 <> 7 /\ LeftNeighbor grid44 7 <> 7.
Proof.
  assert (1 <= ncolumns_ grid44) as Hn by (vm_compute; discriminate).
  destruct (horizontal_neighbor_is_self_iff grid44 7 Hn) as (R & L & _);
    [vm_compute; discriminate|].
  split; [exact Hn|]. split.
  - intros E. apply R in E. vm_compute in E. discriminate E.
  - intros E. apply L in E. vm_compute in E. discriminate E.
Defined.

(** X12.  On a grid with a positive tile size, bounds of positive width and
    height and a tile count that fits an [int], for a tile id of the grid:
    below the last row [BottomNeighbor(TopNeighbor(tileid)) == tileid], and
    above the first row [TopNeighbor(BottomNeighbor(tileid)) == tileid]. *)
Theorem Top_Bottom_inverse (bounds : AABB2.t) (tilesize : Q) (tileid : Z) :
  proper_grid bounds tilesize ->
  let g := Tiles_new bounds tilesize in
  0 <= tileid < TileCount g ->
  (tileid < TileCount g - ncolumns_ g -> BottomNeighbor g (TopNeighbor g tileid) = tileid) /\
  (ncolumns_ g <= tileid -> TopNeighbor g (BottomNeighbor g tileid) = tileid).
Proof.
  intros (Hts & Hx & Hy & Hfit) g. subst g.
  pose proof (ncolumns_ge_1 bounds tilesize Hts Hx) as Hn.
  pose proof (nrows_ge_1 bounds tilesize Hts Hy) as Hr.
  unfold TopNeighbor, BottomNeighbor.
  rewrite (TileCount_proper bounds tilesize Hts Hx Hy Hfit).
  rewrite to_unsigned_small, to_int_small by (unfold INT_MAX in *; nia).
  set (n := ncolumns_ (Tiles_new bounds tilesize)) in *.
  set (r := nrows_ (Tiles_new bounds tilesize)) in *. clearbody n r.
  intros Hid. split; intros H.
  - assert ((tileid <? n * r - n) = true) as -> by (apply Z.ltb_lt; lia).
    assert ((tileid + n <? n) = false) as -> by (apply Z.ltb_ge; lia). lia.
  - assert ((tileid <? n) = false) as -> by (apply Z.ltb_ge; lia).
    assert ((tileid - n <? n * r - n) = true) as -> by (apply Z.ltb_lt; lia). lia.
Qed.

Lemma Top_Bottom_inverse_witness :
  proper_grid (AABB2.make 0 0 4 4) 1 /\ 0 <= 5 < TileCount grid44 /\
  TopNeighbor grid44 5 = 9 /\ BottomNeighbor grid44 (TopNeighbor grid44 5) = 5 /\
  TopNeighbor grid44 (BottomNeighbor grid44 5) = 5.
Proof.
  assert (proper_grid (AABB2.make 0 0 4 4) 1) as Hp.
  { repeat split; vm_compute; discriminate. }
  assert (0 <= 5 < TileCount grid44) as Hid by (vm_compute; split; [discriminate | reflexivity]).
  destruct (Top_Bottom_inverse (AABB2.make 0 0 4 4) 1 5 Hp Hid) as [A B].
  split; [exact Hp|]. split; [exact Hid|]. split; [reflexivity|].
  split; [apply A | apply B]; vm_compute; (reflexivity || discriminate).
Defined.

(** ** What [addNeighbors] and [NextTile] do to the lists *)

(** One block of [addNeighbors]: it appends [n] to the check list and
    marks it, or changes nothing. *)
Lemma checkNeighbor_spec (t : Tiles) (id n : Z) :
  exists new,
    ((new = [] /\ (n = id \/ InList t n = true)) \/
     (new = [n] /\ n <> id /\ InList t n = false)) /\
    checklist_ (checkNeighbor id n t) = checklist_ t ++ new /\
    (forall x, InList (checkNeighbor id n t) x = true <-> InList t x = true \/ x ∈ new).
Proof.
  unfold checkNeighbor.
  destruct (Z.eqb_spec n id) as [E|E]; simpl.
  - exists []. rewrite app_nil_r. split; [auto|]. split; [reflexivity|].
    intros x. rewrite elem_of_nil. tauto.
  - destruct (InList t n) eqn:Ei; simpl.
    + exists []. rewrite app_nil_r. split; [auto|]. split; [reflexivity|].
      intros x. rewrite elem_of_nil. tauto.
    + exists [n]. split; [auto|]. split; [reflexivity|].
      intros x. rewrite InList_enqueue, list_elem_of_singleton. tauto.
Qed.

(** The same for a run of blocks over the neighbours [ns]. *)
Lemma checkNeighbors_spec (id : Z) (ns : list Z) (t : Tiles) :
  let t' := fold_left (fun t n => checkNeighbor id n t) ns t in
  exists new,
    checklist_ t' = checklist_ t ++ new /\
    new `sublist_of` ns /\
    Forall (fun x => x <> id /\ InList t x = false) new /\
    NoDup new /\
    (forall x, InList t' x = true <-> InList t x = true \/ x ∈ new) /\
    (forall x, x ∈ ns -> x <> id -> InList t' x = true).
Proof.
  revert t. induction ns as [|n ns IH]; intros t; simpl.
  - exists []. rewrite app_nil_r. repeat split; try constructor; try tauto.
    + intros [H|H]; [exact H | inversion H].
    + intros x H. inversion H.
  - destruct (checkNeighbor_spec t id n) as (n1 & C1 & L1 & V1).
    destruct (IH (checkNeighbor id n t)) as (new & L & S & F & ND & V & A).
    exists (n1 ++ new).
    split; [rewrite L, L1, app_assoc; reflexivity|].
    assert (forall x, x ∈ new -> InList t x = false /\ InList (checkNeighbor id n t) x = false)
      as Hnew.
    { intros x Hx. rewrite Forall_forall in F. destruct (F x Hx) as [_ Hf].
      split; [|exact Hf]. destruct (InList t x) eqn:E; [|reflexivity].
      assert (InList (checkNeighbor id n t) x = true) by (apply V1; auto). congruence. }
    split; [destruct C1 as [[-> _]|[-> _]]; simpl;
              [apply sublist_cons, S | apply sublist_skip, S]|].
    split.
    { apply Forall_app. split.
      - destruct C1 as [[-> _]|(-> & ? & ?)]; repeat constructor; auto.
      - apply Forall_forall. intros x Hx. rewrite Forall_forall in F.
        split; [apply (F x Hx) | apply (Hnew x Hx)]. }
    split.
    { destruct C1 as [[-> _]|(-> & ? & ?)]; simpl; [exact ND|].
      apply NoDup_cons. split; [|exact ND].
      intros Hin. destruct (Hnew n Hin) as [_ Hf].
      assert (InList (checkNeighbor id n t) n = true); [|congruence].
      apply V1. right. apply list_elem_of_singleton. reflexivity. }
    split.
    { intros x. rewrite V, V1, elem_of_app. tauto. }
    intros x Hx Hne. apply elem_of_cons in Hx as [->|Hx]; [|apply A; assumption].
    apply V. left. apply V1.
    destruct C1 as [[_ [?|?]]|[-> _]]; [contradiction | auto |].
    right. apply list_elem_of_singleton. reflexivity.
Qed.

(** X13.  [addNeighbors(tileid)] appends to the check list, in the order
    left, right, top, bottom, those neighbours of [tileid] that differ from
    it and were not marked in [visitedtiles_], each of them once.  It marks
    exactly the ids it appends and removes no mark, so that afterwards every
    neighbour other than [tileid] itself is marked. *)
Theorem addNeighbors_appends (t : Tiles) (tileid : Z) :
  exists new,
    checklist_ (addNeighbors tileid t) = checklist_ t ++ new /\
    new `sublist_of` [LeftNeighbor t tileid; RightNeighbor t tileid;
                      TopNeighbor t tileid; BottomNeighbor t tileid] /\
    Forall (fun x => x <> tileid /\ InList t x = false) new /\
    NoDup new /\
    (forall x, InList (addNeighbors tileid t) x = true <-> InList t x = true \/ x ∈ new) /\
    (forall x, is_neighbor t tileid x -> x <> tileid ->
       InList (addNeighbors tileid t) x = true).
Proof.
  rewrite addNeighbors_unfold.
  destruct (checkNeighbors_spec tileid
              [LeftNeighbor t tileid; RightNeighbor t tileid;
               TopNeighbor t tileid; BottomNeighbor t tileid] t)
    as (new & L & S & F & ND & V & A).
  simpl in L, V, A. exists new. repeat split; try assumption; try apply V.
  intros x Hn Hne. apply A; [|exact Hne].
  rewrite !elem_of_cons. unfold is_neighbor in Hn. tauto.
Qed.

Lemma addNeighbors_appends_witness :
  checklist_ (addNeighbors 5 (mark_visited 5 (push_tile 5 (clear_lists grid44))))
  = [4; 6; 9; 1] /\
  is_neighbor (mark_visited 5 (push_tile 5 (clear_lists grid44))) 5 9 /\
  InList (addNeighbors 5 (mark_visited 5 (push_tile 5 (clear_lists grid44)))) 9 = true.
Proof.
  assert (is_neighbor (mark_visited 5 (push_tile 5 (clear_lists grid44))) 5 9) as Hn
    by (right; right; left; reflexivity).
  destruct (addNeighbors_appends (mark_visited 5 (push_tile 5 (clear_lists grid44))) 5)
    as (new & _ & _ & _ & _ & _ & A).
  split; [reflexivity|]. split; [exact Hn|].
  apply (A 9 Hn). discriminate.
Defined.

(** X14.  [NextTile] returns the first tile of the check list whose bounds
    intersect the box: the tiles queued before it are dropped, the tiles
    queued after it stay, and its neighbours are added behind them.  When no
    queued tile intersects the box it returns -1 and leaves the check list
    empty. *)
Theorem NextTile_first_intersecting `{M : AABB2_methods} (boundingbox : AABB2.t) (t : Tiles) :
  (Forall (fun x => Intersects boundingbox (TileBounds_id t x) = false) (checklist_ t) ->
   NextTile boundingbox t = (-1, set_checklist [] t)) /\
  (forall l1 x l2,
     checklist_ t = l1 ++ x :: l2 ->
     Forall (fun y => Intersects boundingbox (TileBounds_id t y) = false) l1 ->
     Intersects boundingbox (TileBounds_id t x) = true ->
     NextTile boundingbox t = (x, addNeighbors x (set_checklist l2 t))).
Proof.
  unfold NextTile. generalize (checklist_ t) as cl. intros cl. split.
  - induction 1 as [|y l Hy Hl IH]; simpl; [reflexivity|]. rewrite Hy. exact IH.
  - intros l1 x l2 -> Hl1 Hx. induction Hl1 as [|y l Hy Hl IH]; simpl.
    + rewrite Hx. reflexivity.
    + rewrite Hy. exact IH.
Qed.

Lemma NextTile_first_intersecting_witness :
  checklist_ (addNeighbors 5 (mark_visited 5 (push_tile 5 (clear_lists grid44))))
  = [4; 6; 9; 1] /\
  NextTile box_right
    (addNeighbors 5 (mark_visited 5 (push_tile 5 (clear_lists grid44)))) =
  (6, addNeighbors 6 (set_checklist [9; 1]
        (addNeighbors 5 (mark_visited 5 (push_tile 5 (clear_lists grid44)))))) /\
  NextTile box_outside
    (addNeighbors 5 (mark_visited 5 (push_tile 5 (clear_lists grid44)))) =
  (-1, set_checklist []
        (addNeighbors 5 (mark_visited 5 (push_tile 5 (clear_lists grid44))))).
Proof.
  split; [reflexivity|]. split.
  - apply (proj2 (NextTile_first_intersecting box_right
                    (addNeighbors 5 (mark_visited 5 (push_tile 5 (clear_lists grid44)))))
             [4] 6 [9; 1]).
    + reflexivity.
    + repeat constructor.
    + reflexivity.
  - apply (proj1 (NextTile_first_intersecting box_outside
                    (addNeighbors 5 (mark_visited 5 (push_tile 5 (clear_lists grid44)))))).
    repeat constructor.
Defined.

(** ** What [TileList] returns *)

Lemma same_grid_addNeighbors t id : same_grid t (addNeighbors id t).
Proof.
  rewrite addNeighbors_unfold.
  repeat (eapply same_grid_trans; [|apply same_grid_checkNeighbor]).
  apply same_grid_refl.
Qed.

(** [NextTile] keeps the grid and the result list, and hands out -1 or a
    tile that intersects the box. *)
Lemma NextTile_loop_result `{M : AABB2_methods} bb cl t tileid t1 :
  NextTile_loop bb cl t = (tileid, t1) ->
  same_grid t t1 /\ tilelist_ t1 = tilelist_ t /\
  (tileid = -1 \/ Intersects bb (TileBounds_id t tileid) = true).
Proof.
  revert t. induction cl as [|x rest IH]; intros t Heq; simpl in Heq.
  - inversion Heq; subst. repeat split. auto.
  - destruct (Intersects bb (TileBounds_id t x)) eqn:Ei.
    + inversion Heq; subst.
      split; [|split; [rewrite tilelist_addNeighbors; reflexivity | auto]].
      eapply same_grid_trans; [|apply same_grid_addNeighbors]. repeat split.
    + apply IH, Heq.
Qed.

(** The loop only appends, and what it appends is not negative and
    intersects the box. *)
Lemma TileList_loop_shape `{M : AABB2_methods} fuel bb maxtiles t t' :
  TileList_loop fuel bb maxtiles t = Some t' ->
  same_grid t t' /\
  exists rest, tilelist_ t' = tilelist_ t ++ rest /\
    Forall (fun x => 0 <= x /\ Intersects bb (TileBounds_id t x) = true) rest.
Proof.
  revert t. induction fuel as [|fuel IH]; intros t Heq; [discriminate|].
  simpl in Heq. destruct (NextTile bb t) as [tileid t1] eqn:En.
  destruct (NextTile_loop_result bb (checklist_ t) t tileid t1 En) as (Hg & Etl & Hcase).
  destruct (0 <=? tileid) eqn:E0.
  - apply Z.leb_le in E0. destruct Hcase as [->|Hi]; [lia|].
    assert (same_grid t (push_tile tileid t1)) as Hg2.
    { destruct Hg as (? & ? & ? & ?). repeat split; assumption. }
    destruct (_ =? maxtiles).
    + inversion Heq; subst. split; [exact Hg2|]. exists [tileid]. simpl.
      rewrite Etl. split; [reflexivity|]. repeat constructor; assumption.
    + destruct (IH _ Heq) as (Hg3 & rest & Er & Fr).
      split; [eapply same_grid_trans; eassumption|].
      exists (tileid :: rest). simpl in Er. rewrite Er, Etl, <- app_assoc.
      split; [reflexivity|]. constructor; [auto|].
      eapply Forall_impl; [exact Fr|]. intros x [? Hx]. split; [assumption|].
      rewrite <- (same_grid_TileBounds_id t (push_tile tileid t1)); assumption.
  - inversion Heq; subst. split; [exact Hg|]. exists []. rewrite app_nil_r.
    split; [exact Etl | constructor].
Qed.

Lemma TileList_run_shape `{M : AABB2_methods} fuel t bb maxtiles t' :
  TileList_run fuel t bb maxtiles = Some t' ->
  same_grid t t' /\
  ((TileId t (Center bb) = -1 /\ tilelist_ t' = []) \/
   (TileId t (Center bb) <> -1 /\
    exists rest, tilelist_ t' = TileId t (Center bb) :: rest /\
      Forall (fun x => 0 <= x /\ Intersects bb (TileBounds_id t x) = true) rest)).
Proof.
  unfold TileList_run.
  rewrite (same_grid_TileId t (clear_lists t)) by apply same_grid_clear_lists.
  destruct (Z.eqb_spec (TileId t (Center bb)) (-1)) as [E|E]; intros Heq.
  - inversion Heq; subst. split; [apply same_grid_clear_lists|]. left. auto.
  - apply TileList_loop_shape in Heq as (Hg & rest & Er & Fr).
    set (t0 := addNeighbors _ _) in *.
    assert (same_grid t t0) as Hg0.
    { eapply same_grid_trans; [|apply same_grid_addNeighbors]. repeat split. }
    split; [eapply same_grid_trans; eassumption|]. right. split; [exact E|].
    exists rest. rewrite Er. unfold t0. rewrite tilelist_addNeighbors. simpl.
    split; [reflexivity|].
    eapply Forall_impl; [exact Fr|]. intros x [? Hx]. split; [assumption|].
    rewrite <- (same_grid_TileBounds_id t t0); assumption.
Qed.




Lemma clear_lists_same_grid t t' : same_grid t t' -> clear_lists t' = clear_lists t.
Proof.
  intros (E1 & E2 & E3 & E4). unfold clear_lists. rewrite E1, E2, E3, E4. reflexivity.
Qed.

(** X16.  [TileList] starts from scratch.  A call that returns leaves the
    grid (bounds, tile size, row and column counts) as it was, and a later
    call on the object it leaves behind, with any box and any cap, does
    what it does on the original object: nothing of the earlier traversal
    is seen. *)
Theorem TileList_after_earlier_call `{M : AABB2_methods} (t t1 : Tiles)
    (fuel1 : nat) (boundingbox1 : AABB2.t) (maxtiles1 : Z) :
  TileList_run fuel1 t boundingbox1 maxtiles1 = Some t1 ->
  same_grid t t1 /\
  forall fuel boundingbox maxtiles,
    TileList_run fuel t1 boundingbox maxtiles = TileList_run fuel t boundingbox maxtiles.
Proof.
  intros Hrun. apply TileList_run_shape in Hrun as [Hg _]. split; [exact Hg|].
  intros fuel bb m. unfold TileList_run. rewrite (clear_lists_same_grid t t1 Hg). reflexivity.
Qed.

Lemma TileList_after_earlier_call_witness :
  exists t1, TileList_run 16 grid44 box_corner 100 = Some t1 /\
    tilelist_ t1 = [5; 4; 1; 0] /\
    TileList 16 t1 box_inner 100 = Some [5].
Proof.
  destruct (TileList_run 16 grid44 box_corner 100) as [t1|] eqn:E.
  - exists t1. split; [reflexivity|]. split.
    + vm_compute in E. inversion E. reflexivity.
    + destruct (TileList_after_earlier_call grid44 t1 16 box_corner 100 E) as [_ H].
      unfold TileList. rewrite H. vm_compute. reflexivity.
  - vm_compute in E. discriminate E.
Defined.

(** ** The order of the result *)


Section Connectivity.
Context `{M : AABB2_methods}.
Variable g : Tiles.
Variable boundingbox : AABB2.t.






End Connectivity.



(** ** The cap, and what is returned without it *)



(** Past the seed, a cap below two never equals the size of the result. *)
Lemma TileList_loop_cap_below_2 `{M : AABB2_methods} fuel bb maxtiles1 maxtiles2 t :
  maxtiles1 <= 1 -> maxtiles2 <= 1 -> (1 <= length (tilelist_ t))%nat ->
  TileList_loop fuel bb maxtiles1 t = TileList_loop fuel bb maxtiles2 t.
Proof.
  intros H1 H2. revert t. induction fuel as [|fuel IH]; intros t Hlen; [reflexivity|].
  simpl. pose proof (tilelist_NextTile_loop bb (checklist_ t) t) as Etl.
  unfold NextTile. destruct (NextTile_loop bb (checklist_ t) t) as [tileid t1].
  simpl in Etl. destruct (0 <=? tileid); [|reflexivity].
  assert (2 <= Z.of_nat (length (tilelist_ t1 ++ [tileid]))) as Hl
    by (rewrite length_app, Etl; simpl; lia).
  destruct (Z.eqb_spec (Z.of_nat (length (tilelist_ t1 ++ [tileid]))) maxtiles1); [lia|].
  destruct (Z.eqb_spec (Z.of_nat (length (tilelist_ t1 ++ [tileid]))) maxtiles2); [lia|].
  apply IH. simpl. rewrite length_app. simpl. lia.
Qed.

(** X21.  A cap below two is never applied: [TileList] does the same for
    every [maxtiles <= 1], so a cap of one returns what a cap of zero
    returns.  ([maxtiles] is an [unsigned int], so zero and one are the
    values concerned; the statement covers every integer up to one.) *)
Theorem TileList_cap_below_2_ignored `{M : AABB2_methods} (fuel : nat) (t : Tiles)
    (boundingbox : AABB2.t) (maxtiles1 maxtiles2 : Z) :
  maxtiles1 <= 1 -> maxtiles2 <= 1 ->
  TileList fuel t boundingbox maxtiles1 = TileList fuel t boundingbox maxtiles2.
Proof.
  intros H1 H2. unfold TileList, TileList_run.
  destruct (_ =? -1); [reflexivity|]. f_equal.
  apply TileList_loop_cap_below_2; [exact H1 | exact H2 |].
  rewrite tilelist_addNeighbors. simpl. lia.
Qed.

Lemma TileList_cap_below_2_ignored_witness :
  1 <= 1 /\ 0 <= 1 /\
  TileList 16 grid44 box_corner 0 = Some [5; 4; 1; 0] /\
  TileList 16 grid44 box_corner 1 = Some [5; 4; 1; 0].
Proof.
  assert (1 <= 1) as H1 by (vm_compute; discriminate).
  assert (0 <= 1) as H0 by (vm_compute; discriminate).
  split; [exact H1|]. split; [exact H0|]. split; [vm_compute; reflexivity|].
  rewrite (TileList_cap_below_2_ignored 16 grid44 box_corner 1 0 H1 H0).
  vm_compute. reflexivity.
Defined.

Section Closure.
Context `{M : AABB2_methods}.
Variable g : Tiles.
Variable boundingbox : AABB2.t.
Hypothesis neighbors_range : forall id, 0 <= id < TileCount g ->
  0 <= LeftNeighbor g id < TileCount g /\ 0 <= RightNeighbor g id < TileCount g /\
  0 <= TopNeighbor g id < TileCount g /\ 0 <= BottomNeighbor g id < TileCount g.





End Closure.




(** ** The tiles that meet the box, with the intersection test of the spec *)







Section Completeness.
Variable bounds : AABB2.t.
Variable tilesize : Q.
Local Abbreviation g := (Tiles_new bounds tilesize).
Hypothesis tilesize_pos : (0 < tilesize)%Q.
Hypothesis width_pos : (AABB2.minx bounds < AABB2.maxx bounds)%Q.
Hypothesis height_pos : (AABB2.miny bounds < AABB2.maxy bounds)%Q.
Hypothesis count_fits : ncolumns_ g * nrows_ g <= INT_MAX.
Variable boundingbox : AABB2.t.
Variable l : list Z.
Hypothesis l_closed : forall y n, y ∈ l -> is_neighbor g y n ->
  spec_Intersects boundingbox (TileBounds_id g n) = true -> n ∈ l.





End Completeness.


